(** * xweb: the registry of web handler factories (registry.go)

    A shallow embedding of [WebHandlerFactoryRegistryImpl] and of its two
    methods [Add] and [Get], followed by the properties of the registry
    contract.

    Go values are embedded as follows.
    - A value of the interface type [WebHandlerFactory] is an [option T]:
      [None] is the nil interface, [Some f] holds the factory object [f].
    - A [map[string]WebHandlerFactory] is an [option (gmap string T)]:
      [None] is the nil map (the field of a zero-value struct), [Some m] an
      allocated table.  Reading a nil map yields the zero value, writing to
      it panics.
    - An [error] is an [option string]: [None] is nil, [Some msg] carries the
      text of [Error()].
    - A call either returns or panics ([outcome]). *)

From Stdlib Require Import Ascii String.
From stdpp Require Import gmap strings list fin_maps.

Open Scope string_scope.

(** ** Go runtime values *)

Inductive panic : Type :=
| NilDereference      (* method call through a nil interface value *)
| NilMapAssignment.   (* "assignment to entry in nil map" *)

Inductive outcome (A : Type) : Type :=
| Returns (a : A)
| Panics (cause : panic).
Arguments Returns {A} a.
Arguments Panics {A} cause.

Definition error : Type := option string.

(** [fmt.Sprintf] restricted to what registry.go needs: a format with the
    verb [%s] and one string operand, which is printed as it is. *)
Fixpoint Sprintf (format : string) (operand : string) : string :=
  match format with
  | EmptyString => EmptyString
  | String "%"%char (String "s"%char rest) => operand +:+ rest
  | String c rest => String c (Sprintf rest operand)
  end.

Definition Errorf (format : string) (operand : string) : error :=
  Some (Sprintf format operand).

(** ** The factory interface

    A type [T] implements [WebHandlerFactory] when it has the method
    [Binding].  The methods [New] and [Validate] of the interface are never
    called by the registry and take no part in its state.  [Binding] is a
    function of the factory object: the registry calls it several times on
    one factory and relies on getting the same string. *)
Class WebHandlerFactory (T : Type) : Type := {
  Binding : T → string
}.

Section Registry.
Context {T : Type} `{!WebHandlerFactory T}.

(** The only write to the table is the last statement of [Add], which
    stores a factory on which [Binding()] has been called: the entries are
    factory objects, never the nil interface. *)
Record WebHandlerFactoryRegistryImpl : Type := {
  factories : option (gmap string T)
}.

(** [v, ok := m[k]] *)
Definition map_index (m : option (gmap string T)) (k : string) : option T * bool :=
  match m with
  | None => (None, false)
  | Some table =>
      match table !! k with
      | Some v => (Some v, true)
      | None => (None, false)
      end
  end.

(** [m[k] = v]; [None] when the statement panics. *)
Definition map_assign (m : option (gmap string T)) (k : string) (v : T)
  : option (option (gmap string T)) :=
  match m with
  | None => None
  | Some table => Some (Some (<[k := v]> table))
  end.

Definition NewWebHandlerFactoryRegistryImpl : WebHandlerFactoryRegistryImpl :=
  {| factories := Some ∅ |}.

(** The zero value of the struct, [WebHandlerFactoryRegistryImpl{}]. *)
Definition zero_registry : WebHandlerFactoryRegistryImpl :=
  {| factories := None |}.

(** [Add] has a value receiver, and the copy shares the table with the
    caller's struct: the registry paired with the outcome is the caller's
    registry after the call.  The debug log line only evaluates
    [factory.Binding()], which is where a nil [factory] panics. *)
Definition Add (registry : WebHandlerFactoryRegistryImpl) (factory : option T)
  : WebHandlerFactoryRegistryImpl * outcome error :=
  match factory with
  | None => (registry, Panics NilDereference)
  | Some f =>
      let '(_, ok) := map_index (factories registry) (Binding f) in
      if ok then
        (registry, Returns (Errorf "binding [%s] already registered" (Binding f)))
      else
        match map_assign (factories registry) (Binding f) f with
        | None => (registry, Panics NilMapAssignment)
        | Some m' => ({| factories := m' |}, Returns None)
        end
  end.

Definition Get (registry : WebHandlerFactoryRegistryImpl) (binding : string) : option T :=
  fst (map_index (factories registry) binding).

(** The [ok] of [_, ok := registry.factories[binding]], the test [Add]
    makes: whether the table has an entry for [binding]. *)
Definition registered (registry : WebHandlerFactoryRegistryImpl) (binding : string) : bool :=
  snd (map_index (factories registry) binding).

(** ** Sequences of method calls on one registry *)

Inductive call : Type :=
| CallAdd (factory : option T)
| CallGet (binding : string).

Inductive reply : Type :=
| AddReply (result : outcome error)
| GetReply (factory : option T).

Definition invoke (registry : WebHandlerFactoryRegistryImpl) (c : call)
  : WebHandlerFactoryRegistryImpl * reply :=
  match c with
  | CallAdd factory =>
      let '(registry', result) := Add registry factory in
      (registry', AddReply result)
  | CallGet binding => (registry, GetReply (Get registry binding))
  end.

(** The registry after a sequence of calls, a panicking call being
    recovered by the caller. *)
Fixpoint after (registry : WebHandlerFactoryRegistryImpl) (calls : list call)
  : WebHandlerFactoryRegistryImpl :=
  match calls with
  | [] => registry
  | c :: rest => after (fst (invoke registry c)) rest
  end.

(** The factories whose [Add] returned nil, in the order of the calls. *)
Fixpoint accepted (registry : WebHandlerFactoryRegistryImpl) (calls : list call)
  : list T :=
  match calls with
  | [] => []
  | c :: rest =>
      let '(registry', r) := invoke registry c in
      match c, r with
      | CallAdd (Some f), AddReply (Returns None) => f :: accepted registry' rest
      | _, _ => accepted registry' rest
      end
  end.

(** The bindings some call of the sequence tried to register. *)
Fixpoint offered (calls : list call) : list string :=
  match calls with
  | [] => []
  | CallAdd (Some f) :: rest => Binding f :: offered rest
  | _ :: rest => offered rest
  end.

End Registry.

Arguments WebHandlerFactoryRegistryImpl T : clear implicits.
Arguments call T : clear implicits.
Arguments Add : simpl never.
Arguments Get : simpl never.

(** ** The method bodies, statement by statement

    A method body is run on the caller's registry and leaves a registry
    behind, together with what it returns or the panic that ends it.  The
    statements a body is made of are the read [registry.factories[k]], the
    write [registry.factories[k] = v] and the method call
    [factory.Binding()]. *)

Definition method (T A : Type) : Type :=
  WebHandlerFactoryRegistryImpl T → WebHandlerFactoryRegistryImpl T * outcome A.

#[export] Instance method_ret {T : Type} : MRet (method T) :=
  λ A a registry, (registry, Returns a).

#[export] Instance method_bind {T : Type} : MBind (method T) :=
  λ A B k c registry,
    match c registry with
    | (registry', Returns a) => k a registry'
    | (registry', Panics cause) => (registry', Panics cause)
    end.

Section Methods.
Context {T : Type} `{!WebHandlerFactory T}.

(** [v, ok := registry.factories[k]]: a read, which leaves the table alone
    and yields the zero value on a nil map. *)
Definition index_factories (k : string) : method T (option T * bool) :=
  λ registry, (registry, Returns (map_index (factories registry) k)).

(** [registry.factories[k] = v]: a write through the shared table, which
    panics on a nil map. *)
Definition assign_factories (k : string) (v : T) : method T unit :=
  λ registry,
    match map_assign (factories registry) k v with
    | Some m' => ({| factories := m' |}, Returns tt)
    | None => (registry, Panics NilMapAssignment)
    end.

(** The object a method of [factory] is called on: calling a method
    through the nil interface value panics. *)
Definition receiver (factory : option T) : method T T :=
  λ registry,
    match factory with
    | Some f => (registry, Returns f)
    | None => (registry, Panics NilDereference)
    end.

(** The body of [Add], lines 45 to 52.  The first call of
    [factory.Binding()] is the argument of the debug log line. *)
Definition Add_body (factory : option T) : method T error :=
  f ← receiver factory;
  '(_, ok) ← index_factories (Binding f);
  if (ok : bool) then
    mret (Errorf "binding [%s] already registered" (Binding f))
  else
    _ ← assign_factories (Binding f) f;
    mret None.

(** The body of [Get], line 57. *)
Definition Get_body (binding : string) : method T (option T) :=
  '(v, _) ← index_factories binding;
  mret v.

End Methods.

(** ** A concrete factory type, to run the registry on examples *)

Record NamedFactory : Type := {
  name : string;
  serial : nat
}.

#[export] Instance NamedFactory_impl : WebHandlerFactory NamedFactory := {|
  Binding := name
|}.

Definition rest_v1 : NamedFactory := {| name := "rest-v1"; serial := 1 |}.
Definition rest_v1' : NamedFactory := {| name := "rest-v1"; serial := 2 |}.
Definition rest_v2 : NamedFactory := {| name := "rest-v2"; serial := 3 |}.
Definition unnamed : NamedFactory := {| name := EmptyString; serial := 4 |}.
Definition unnamed' : NamedFactory := {| name := EmptyString; serial := 5 |}.

Definition fresh_registry : WebHandlerFactoryRegistryImpl NamedFactory :=
  NewWebHandlerFactoryRegistryImpl.

Definition registry_with_rest_v1 : WebHandlerFactoryRegistryImpl NamedFactory :=
  fst (Add fresh_registry (Some rest_v1)).

Definition startup_calls : list (call NamedFactory) :=
  [CallAdd (Some rest_v1); CallAdd (Some rest_v1'); CallGet "rest-v1";
   CallAdd None; CallAdd (Some unnamed)].

Example Sprintf_rest_v1 :
  Sprintf "binding [%s] already registered" "rest-v1"
  = "binding [rest-v1] already registered".
Proof. reflexivity. Qed.

Example scenario_rest_v1 :
  let r0 := NewWebHandlerFactoryRegistryImpl in
  let '(r1, e1) := Add r0 (Some rest_v1) in
  let '(r2, e2) := Add r1 (Some rest_v1') in
  e1 = Returns None
  ∧ e2 = Returns (Some "binding [rest-v1] already registered")
  ∧ Get r2 "rest-v1" = Some rest_v1
  ∧ Get r2 "rest-v2" = None.
Proof. vm_compute. done. Qed.

(** ** Equations of [Sprintf], [Add] and [Get] *)

Lemma Sprintf_binding (b : string) :
  Sprintf "binding [%s] already registered" b
  = "binding [" +:+ b +:+ "] already registered".
Proof. reflexivity. Qed.

Lemma NoDup_fmap_elem_inj {A B : Type} (h : A → B) (l : list A) (x y : A) :
  NoDup (h <$> l) → x ∈ l → y ∈ l → h x = h y → x = y.
Proof.
  induction l as [|a l IH]; [by intros _ ?%elem_of_nil|].
  rewrite fmap_cons, NoDup_cons.
  intros [Ha Hl] [->|Hx]%elem_of_cons [->|Hy]%elem_of_cons Hxy; [done|..|by eauto].
  - destruct Ha. rewrite Hxy. by apply list_elem_of_fmap_2.
  - destruct Ha. rewrite <- Hxy. by apply list_elem_of_fmap_2.
Qed.

Section RegistryFacts.
Context {T : Type} `{!WebHandlerFactory T}.
Implicit Types (registry r : WebHandlerFactoryRegistryImpl T).
Implicit Types (m : gmap string T) (f g : T) (b : string).

Lemma Get_allocated r m b : factories r = Some m → Get r b = m !! b.
Proof. unfold Get, map_index. intros ->. by destruct (m !! b). Qed.

Lemma registered_true r b : registered r b = true ↔ is_Some (Get r b).
Proof.
  unfold registered, Get, map_index.
  destruct (factories r) as [m|]; [destruct (m !! b)|]; simpl;
    (split; [try done; by eauto|try done; by intros [? ?]]).
Qed.

Lemma registered_false r b : registered r b = false ↔ Get r b = None.
Proof.
  unfold registered, Get, map_index.
  by destruct (factories r) as [m|]; [destruct (m !! b)|].
Qed.

Lemma Get_nil_map r b : factories r = None → Get r b = None.
Proof. unfold Get, map_index. by intros ->. Qed.

Lemma Add_nil_factory r : Add r None = (r, Panics NilDereference).
Proof. reflexivity. Qed.

Lemma Add_nil_map r f :
  factories r = None → Add r (Some f) = (r, Panics NilMapAssignment).
Proof. unfold Add, map_index, map_assign. by intros ->. Qed.

Lemma Add_registered r m f g :
  factories r = Some m → m !! Binding f = Some g →
  Add r (Some f)
  = (r, Returns (Some ("binding [" +:+ Binding f +:+ "] already registered"))).
Proof.
  unfold Add, map_index, map_assign, Errorf. intros -> ->.
  by rewrite Sprintf_binding.
Qed.

Lemma Add_fresh r m f :
  factories r = Some m → m !! Binding f = None →
  Add r (Some f) = ({| factories := Some (<[Binding f := f]> m) |}, Returns None).
Proof. unfold Add, map_index, map_assign. by intros -> ->. Qed.

(** The three ways a call of [Add] on a factory object can end. *)
Lemma Add_cases r f :
  (factories r = None ∧ Add r (Some f) = (r, Panics NilMapAssignment))
  ∨ (∃ m g, factories r = Some m ∧ m !! Binding f = Some g
      ∧ Add r (Some f)
        = (r, Returns (Some ("binding [" +:+ Binding f +:+ "] already registered"))))
  ∨ (∃ m, factories r = Some m ∧ m !! Binding f = None
      ∧ Add r (Some f)
        = ({| factories := Some (<[Binding f := f]> m) |}, Returns None)).
Proof.
  destruct (factories r) as [m|] eqn:Hm.
  - destruct (m !! Binding f) as [g|] eqn:Hg.
    + right; left. exists m, g. eauto using Add_registered.
    + right; right. exists m. eauto using Add_fresh.
  - left. eauto using Add_nil_map.
Qed.

Lemma Add_success_inv r r' f :
  Add r (Some f) = (r', Returns None) →
  ∃ m, factories r = Some m ∧ m !! Binding f = None
       ∧ r' = {| factories := Some (<[Binding f := f]> m) |}.
Proof.
  intros Hadd.
  destruct (Add_cases r f) as [[_ E]|[(m & g & _ & _ & E)|(m & Hm & Hf & E)]];
    rewrite E in Hadd; try discriminate.
  exists m. split_and!; [done..|congruence].
Qed.

(** [Add] never removes or replaces an entry. *)
Lemma Add_keeps_Get r factory b g :
  Get r b = Some g → Get (fst (Add r factory)) b = Some g.
Proof.
  intros Hget. destruct factory as [f|]; [|done].
  destruct (Add_cases r f) as [[_ E]|[(m & g' & _ & _ & E)|(m & Hm & Hf & E)]];
    rewrite E; simpl; try done.
  rewrite (Get_allocated r m) in Hget by done.
  rewrite (Get_allocated _ (<[Binding f := f]> m)) by done.
  rewrite lookup_insert_ne; [done|]. intros <-. congruence.
Qed.

(** [Add] leaves the bindings other than the factory's own alone. *)
Lemma Add_other_Get r factory b :
  (∀ f, factory = Some f → Binding f ≠ b) →
  Get (fst (Add r factory)) b = Get r b.
Proof.
  intros Hne. destruct factory as [f|]; [|done].
  destruct (Add_cases r f) as [[_ E]|[(m & g' & _ & _ & E)|(m & Hm & Hf & E)]];
    rewrite E; simpl; try done.
  rewrite (Get_allocated r m) by done.
  rewrite (Get_allocated _ (<[Binding f := f]> m)) by done.
  apply lookup_insert_ne. by apply Hne.
Qed.

(** Running the body of [Add] is what [Add] computes. *)
Lemma Add_body_Add r factory : Add_body factory r = Add r factory.
Proof.
  unfold Add_body, Add, receiver, index_factories, assign_factories, mbind,
    method_bind, mret, method_ret.
  destruct factory as [f|]; [|done].
  destruct (map_index (factories r) (Binding f)) as [v [|]]; [done|].
  by destruct (map_assign (factories r) (Binding f) f).
Qed.

Lemma invoke_Add r factory :
  invoke r (CallAdd factory) = (fst (Add r factory), AddReply (snd (Add r factory))).
Proof. simpl. by destruct (Add r factory). Qed.

Lemma invoke_Get r b : invoke r (CallGet b) = (r, GetReply (Get r b)).
Proof. reflexivity. Qed.

Lemma invoke_keeps_Get r c b g :
  Get r b = Some g → Get (fst (invoke r c)) b = Some g.
Proof.
  intros Hget. destruct c as [factory|b']; [|done].
  rewrite invoke_Add. by apply Add_keeps_Get.
Qed.

Lemma after_keeps_Get calls r b g :
  Get r b = Some g → Get (after r calls) b = Some g.
Proof.
  revert r. induction calls as [|c calls IH]; intros r Hget; simpl; [done|].
  apply IH. by apply invoke_keeps_Get.
Qed.

Lemma after_unoffered_Get calls r b :
  b ∉ offered calls → Get (after r calls) b = Get r b.
Proof.
  revert r. induction calls as [|c calls IH]; intros r Hb; simpl; [done|].
  destruct c as [[f|]|b'].
  - simpl in Hb. apply not_elem_of_cons in Hb as [Hne Hb].
    rewrite IH, invoke_Add by done. simpl.
    apply Add_other_Get. by intros ? [= <-].
  - by rewrite IH.
  - by rewrite IH.
Qed.

Lemma accepted_Add r factory rest :
  accepted r (CallAdd factory :: rest)
  = match factory, snd (Add r factory) with
    | Some f, Returns None => f :: accepted (fst (Add r factory)) rest
    | _, _ => accepted (fst (Add r factory)) rest
    end.
Proof.
  destruct factory as [f|]; cbn [accepted invoke];
    destruct (Add r _) as [r' [[e|]|p]]; reflexivity.
Qed.

(** What a sequence of calls does to an allocated table [m0]: the table
    stays allocated, the accepted factories have pairwise distinct
    bindings, none of which was in [m0], and the final table is [m0]
    extended by exactly the accepted factories. *)
Lemma after_allocated calls m0 :
  let r0 := {| factories := Some m0 |} in
  ∃ m, factories (after r0 calls) = Some m
       ∧ NoDup (Binding <$> accepted r0 calls)
       ∧ (∀ f, f ∈ accepted r0 calls → m0 !! Binding f = None)
       ∧ (∀ b f, m !! b = Some f
                 ↔ m0 !! b = Some f ∨ (f ∈ accepted r0 calls ∧ Binding f = b)).
Proof.
  revert m0. induction calls as [|c calls IH]; intros m0 r0.
  { exists m0. split_and!; [done|constructor|by intros f ?%elem_of_nil|].
    intros b f. split; [by left|]. by intros [?|[?%elem_of_nil _]]. }
  destruct c as [[f|]|b'].
  - change (after r0 (CallAdd (Some f) :: calls))
      with (after (fst (invoke r0 (CallAdd (Some f)))) calls).
    rewrite accepted_Add, invoke_Add. cbn [fst].
    destruct (Add_cases r0 f) as [[? _]|[(m & g & Hm & Hg & E)|(m & Hm & Hf & E)]];
      [done|..]; injection Hm as <-; rewrite E; cbn [fst snd].
    + apply (IH m0).
    + destruct (IH (<[Binding f := f]> m0)) as (m & Hafter & Hnd & Hnew & Hm).
      set (r1 := {| factories := Some (<[Binding f := f]> m0) |}) in *.
      exists m. split_and!.
      * done.
      * rewrite fmap_cons. constructor; [|done].
        intros (g & Hbg & Hin)%list_elem_of_fmap.
        specialize (Hnew g Hin). rewrite <- Hbg, lookup_insert_eq in Hnew.
        discriminate.
      * intros g [->|Hin]%elem_of_cons; [done|].
        specialize (Hnew g Hin).
        apply lookup_insert_None in Hnew. tauto.
      * intros b g. rewrite Hm, elem_of_cons. split.
        -- intros [Hl|[Hin Hb]]; [|by eauto].
           apply lookup_insert_Some in Hl as [[<- <-]|[_ Hl]]; eauto.
        -- intros [Hl|[[->|Hin] Hb]].
           ++ left. rewrite lookup_insert_ne; [done|]. intros <-. congruence.
           ++ left. rewrite <- Hb. apply lookup_insert_eq.
           ++ by eauto.
  - apply (IH m0).
  - apply (IH m0).
Qed.

End RegistryFacts.

(** ** The registry contract *)

Section Contract.
Context {T : Type} `{!WebHandlerFactory T}.
Implicit Types (registry r : WebHandlerFactoryRegistryImpl T).
Implicit Types (m : gmap string T) (F G f g : T) (b : string).

(** C1. For every registry and every two factories [F] and [G] with the
    same binding, once [Add(F)] has succeeded, [Add(G)] returns an error,
    leaves the registry as it was, and [Get] on the binding still returns
    [F]. *)
Theorem Add_duplicate_keeps_first r r1 F G :
  Binding F = Binding G →
  Add r (Some F) = (r1, Returns None) →
  Get r1 (Binding F) = Some F
  ∧ (∃ msg, snd (Add r1 (Some G)) = Returns (Some msg))
  ∧ fst (Add r1 (Some G)) = r1
  ∧ Get (fst (Add r1 (Some G))) (Binding F) = Some F.
Proof.
  intros Hb (m & Hm & Hfree & ->)%Add_success_inv.
  set (r1 := {| factories := Some (<[Binding F := F]> m) |}).
  assert (Get r1 (Binding F) = Some F) as Hget.
  { rewrite (Get_allocated r1 _ _ eq_refl). apply lookup_insert_eq. }
  rewrite (Add_registered r1 (<[Binding F := F]> m) G F eq_refl).
  - split_and!; eauto.
  - rewrite <- Hb. apply lookup_insert_eq.
Qed.

(** C2. For a binding that no call of [Add] was ever made for, on a
    registry that did not hold it to begin with (a fresh one, say), [Get]
    returns the nil interface value, which is no factory object. *)
Theorem Get_never_registered_is_nil r calls b :
  registered r b = false →
  b ∉ offered calls →
  Get (after r calls) b = None
  ∧ registered (after r calls) b = false
  ∧ ∀ f, Get (after r calls) b ≠ Some f.
Proof.
  intros Hreg Hb.
  assert (Get (after r calls) b = None) as Hget.
  { rewrite after_unoffered_Get by done. by apply registered_false. }
  split_and!; [done|by apply registered_false|by rewrite Hget].
Qed.

(** C3, as the code has it. On a registry whose table is allocated, as
    every registry made by [NewWebHandlerFactoryRegistryImpl] is, [Add(F)]
    returns an error if and only if the table has an entry for
    [F.Binding()]; when it has none, [Add] returns nil, stores [F] under
    [F.Binding()], and [Get(F.Binding())] returns [F] afterwards. *)
Theorem Add_on_allocated_registry r m F :
  factories r = Some m →
  ((∃ msg, snd (Add r (Some F)) = Returns (Some msg))
    ↔ registered r (Binding F) = true)
  ∧ (registered r (Binding F) = false →
      snd (Add r (Some F)) = Returns None
      ∧ factories (fst (Add r (Some F))) = Some (<[Binding F := F]> m)
      ∧ Get (fst (Add r (Some F))) (Binding F) = Some F).
Proof.
  intros Hm. rewrite registered_true, registered_false.
  rewrite (Get_allocated r m) by done.
  destruct (m !! Binding F) as [g|] eqn:Hg.
  - rewrite (Add_registered r m F g) by done. simpl.
    split; [split; by eauto|done].
  - rewrite (Add_fresh r m F) by done. simpl. split.
    + split; [by intros [? [=]]|by intros [? [=]]].
    + intros _. split_and!; [done..|].
      erewrite Get_allocated by reflexivity. apply lookup_insert_eq.
Qed.

(** C4. Two factories with distinct bindings added to a fresh registry are
    both accepted, and [Get] on each binding returns the factory added
    under it. *)
Theorem Add_two_distinct_bindings F G :
  Binding F ≠ Binding G →
  ∃ r1 r2,
    Add NewWebHandlerFactoryRegistryImpl (Some F) = (r1, Returns None)
    ∧ Add r1 (Some G) = (r2, Returns None)
    ∧ Get r2 (Binding F) = Some F
    ∧ Get r2 (Binding G) = Some G.
Proof.
  intros Hne.
  eexists _, _. split_and!.
  - by apply (Add_fresh _ ∅).
  - apply (Add_fresh _ (<[Binding F := F]> ∅)); [done|].
    rewrite lookup_insert_ne by done. apply lookup_empty.
  - erewrite Get_allocated by reflexivity.
    rewrite lookup_insert_ne by done. apply lookup_insert_eq.
  - erewrite Get_allocated by reflexivity. apply lookup_insert_eq.
Qed.

(** C5. In every registry reached from a fresh one by a sequence of [Add]
    and [Get] calls, the accepted factories have pairwise distinct
    bindings, so that a binding has at most one factory; [Get] returns
    exactly the accepted factory of a binding; and what [Get] returns for
    a binding that holds a factory is the same after any further calls. *)
Theorem reachable_registry_invariant calls r :
  r = after NewWebHandlerFactoryRegistryImpl calls →
  NoDup (Binding <$> accepted NewWebHandlerFactoryRegistryImpl calls)
  ∧ (∀ f g, f ∈ accepted NewWebHandlerFactoryRegistryImpl calls →
            g ∈ accepted NewWebHandlerFactoryRegistryImpl calls →
            Binding f = Binding g → f = g)
  ∧ (∀ b f, Get r b = Some f
            ↔ f ∈ accepted NewWebHandlerFactoryRegistryImpl calls ∧ Binding f = b)
  ∧ (∀ b f more, Get r b = Some f → Get (after r more) b = Some f).
Proof.
  intros ->.
  destruct (after_allocated calls ∅) as (m & Hm & Hnd & _ & Hlook).
  fold (@NewWebHandlerFactoryRegistryImpl T) in *.
  split_and!.
  - done.
  - intros f g. by apply NoDup_fmap_elem_inj.
  - intros b f. rewrite (Get_allocated _ m) by done. rewrite Hlook.
    rewrite lookup_empty. split; [by intros [?|?]|by right].
  - intros b f more. apply after_keeps_Get.
Qed.

(** C6. [Add] of a factory whose binding is already registered returns
    the error "binding [B] already registered", B being the binding; for
    the binding "rest-v1" it reads "binding [rest-v1] already
    registered". *)
Theorem Add_duplicate_message r F :
  registered r (Binding F) = true →
  snd (Add r (Some F))
  = Returns (Some ("binding [" +:+ Binding F +:+ "] already registered"))
  ∧ (Binding F = "rest-v1" →
     snd (Add r (Some F)) = Returns (Some "binding [rest-v1] already registered")).
Proof.
  intros [g Hg]%registered_true.
  destruct (Add_cases r F) as [[Hnil _]|[(m & g' & _ & _ & E)|(m & Hm & Hf & _)]].
  - by rewrite Get_nil_map in Hg.
  - rewrite E. simpl. split; [done|]. by intros ->.
  - rewrite (Get_allocated r m) in Hg by done. congruence.
Qed.

(** C7. [Get] is a pure lookup.  Running its body leaves the registry, and
    so its table, exactly as it was and never panics; what it returns is the
    entry of the table, so a second call, run on the registry the first call
    left, returns the same result, as does any later one; no call of [Add]
    can tell whether [Get] was called before it; and a [Get] in a sequence
    of calls hands on the registry its body leaves. *)
Theorem Get_is_pure r b :
  fst (Get_body b r) = r
  ∧ factories (fst (Get_body b r)) = factories r
  ∧ snd (Get_body b r) = Returns (Get r b)
  ∧ snd (Get_body b (fst (Get_body b r))) = snd (Get_body b r)
  ∧ (∀ n, Nat.iter n (λ r', fst (Get_body b r')) r = r)
  ∧ (∀ factory, Add_body factory (fst (Get_body b r)) = Add_body factory r)
  ∧ invoke r (CallGet b) = (fst (Get_body b r), GetReply (Get r b)).
Proof.
  assert (∀ r', Get_body b r' = (r', Returns (Get r' b))) as Hbody.
  { intros r'. unfold Get_body, index_factories, Get, mbind, method_bind, mret,
      method_ret.
    by destruct (map_index (factories r') b). }
  rewrite !Hbody. cbn [fst snd]. rewrite ?Hbody. cbn [fst snd].
  split_and!; [done..| |done|done].
  intros n. induction n as [|n IH]; [done|].
  change (Nat.iter (S n) (λ r', fst (Get_body b r')) r)
    with (fst (Get_body b (Nat.iter n (λ r', fst (Get_body b r')) r))).
  by rewrite IH, Hbody.
Qed.

(** C9. A registry made by [NewWebHandlerFactoryRegistryImpl] is empty:
    [Get] returns nil for every binding, and [Add] of any factory on it
    succeeds. *)
Theorem New_registry_is_empty :
  (∀ b, Get (@NewWebHandlerFactoryRegistryImpl T) b = None)
  ∧ (∀ b, registered (@NewWebHandlerFactoryRegistryImpl T) b = false)
  ∧ (∀ F, snd (Add NewWebHandlerFactoryRegistryImpl (Some F)) = Returns None
          ∧ Get (fst (Add NewWebHandlerFactoryRegistryImpl (Some F))) (Binding F)
            = Some F).
Proof.
  split_and!; [done..|].
  intros F. rewrite (Add_fresh _ ∅) by done. simpl. split; [done|].
  erewrite Get_allocated by reflexivity. apply lookup_insert_eq.
Qed.

(** C10. The empty string is a binding like any other: on a registry with
    an allocated table that has no entry for it, [Add] of a factory whose
    binding is empty succeeds and stores it under the empty string, [Get]
    of the empty string then returns it, and [Add] of a second factory with
    the empty binding fails as a duplicate and changes nothing. *)
Theorem Add_empty_binding r m F G :
  factories r = Some m →
  registered r EmptyString = false →
  Binding F = EmptyString →
  Binding G = EmptyString →
  ∃ r1,
    Add r (Some F) = (r1, Returns None)
    ∧ factories r1 = Some (<[EmptyString := F]> m)
    ∧ Get r1 EmptyString = Some F
    ∧ Add r1 (Some G) = (r1, Returns (Some "binding [] already registered"))
    ∧ Get (fst (Add r1 (Some G))) EmptyString = Some F.
Proof.
  intros Hm Hfree HF HG.
  apply registered_false in Hfree. rewrite (Get_allocated r m) in Hfree by done.
  eexists. split; [apply (Add_fresh r m F); by rewrite ?HF|].
  rewrite HF.
  set (r1 := {| factories := Some (<[EmptyString := F]> m) |}).
  assert (Get r1 EmptyString = Some F) as Hget.
  { erewrite Get_allocated by reflexivity. apply lookup_insert_eq. }
  assert (Add r1 (Some G) = (r1, Returns (Some "binding [] already registered")))
    as Hdup.
  { rewrite (Add_registered r1 (<[EmptyString := F]> m) G F eq_refl).
    - by rewrite HG.
    - rewrite HG. apply lookup_insert_eq. }
  split_and!; [done..|]. by rewrite Hdup.
Qed.

End Contract.

(** ** The contract on [NamedFactory] registries *)

Lemma Add_duplicate_keeps_first_witness :
  (Binding rest_v1 = Binding rest_v1'
   ∧ Add fresh_registry (Some rest_v1) = (registry_with_rest_v1, Returns None))
  ∧ Get registry_with_rest_v1 "rest-v1" = Some rest_v1
  ∧ (∃ msg, snd (Add registry_with_rest_v1 (Some rest_v1')) = Returns (Some msg))
  ∧ fst (Add registry_with_rest_v1 (Some rest_v1')) = registry_with_rest_v1
  ∧ Get (fst (Add registry_with_rest_v1 (Some rest_v1'))) "rest-v1" = Some rest_v1.
Proof.
  split; [split; reflexivity|].
  exact (Add_duplicate_keeps_first fresh_registry registry_with_rest_v1
           rest_v1 rest_v1' eq_refl eq_refl).
Defined.

Lemma Get_never_registered_is_nil_witness :
  (registered fresh_registry "rest-v2" = false
   ∧ "rest-v2" ∉ offered startup_calls)
  ∧ Get (after fresh_registry startup_calls) "rest-v2" = None
  ∧ registered (after fresh_registry startup_calls) "rest-v2" = false
  ∧ ∀ f, Get (after fresh_registry startup_calls) "rest-v2" ≠ Some f.
Proof.
  assert ("rest-v2" ∉ offered startup_calls) as Hnot.
  { simpl. intros H. repeat (apply elem_of_cons in H as [H|H]; [discriminate H|]).
    by apply elem_of_nil in H. }
  split; [split; [reflexivity|exact Hnot]|].
  exact (Get_never_registered_is_nil fresh_registry startup_calls "rest-v2"
           eq_refl Hnot).
Defined.

Lemma Add_on_allocated_registry_witness :
  factories fresh_registry = Some ∅
  ∧ ((∃ msg, snd (Add fresh_registry (Some rest_v1)) = Returns (Some msg))
      ↔ registered fresh_registry "rest-v1" = true)
  ∧ (registered fresh_registry "rest-v1" = false →
      snd (Add fresh_registry (Some rest_v1)) = Returns None
      ∧ factories (fst (Add fresh_registry (Some rest_v1)))
        = Some (<["rest-v1" := rest_v1]> ∅)
      ∧ Get (fst (Add fresh_registry (Some rest_v1))) "rest-v1" = Some rest_v1).
Proof.
  split; [reflexivity|].
  exact (Add_on_allocated_registry fresh_registry ∅ rest_v1 eq_refl).
Defined.

(** C3 as stated, for every registry state, fails on the zero value of the
    struct: nothing is registered there, and [Add] panics on the assignment
    instead of storing the factory and returning nil. *)
Lemma Add_on_zero_registry_panics :
  registered (@zero_registry NamedFactory) (Binding rest_v1) = false
  ∧ Add zero_registry (Some rest_v1) = (zero_registry, Panics NilMapAssignment)
  ∧ ¬ (registered (@zero_registry NamedFactory) (Binding rest_v1) = false →
       snd (Add zero_registry (Some rest_v1)) = Returns None
       ∧ Get (fst (Add zero_registry (Some rest_v1))) (Binding rest_v1)
         = Some rest_v1).
Proof.
  split_and!; [reflexivity..|].
  intros H. destruct (H eq_refl) as [H1 _]. discriminate H1.
Qed.

Lemma Add_two_distinct_bindings_witness :
  Binding rest_v1 ≠ Binding rest_v2
  ∧ ∃ r1 r2,
      Add fresh_registry (Some rest_v1) = (r1, Returns None)
      ∧ Add r1 (Some rest_v2) = (r2, Returns None)
      ∧ Get r2 "rest-v1" = Some rest_v1
      ∧ Get r2 "rest-v2" = Some rest_v2.
Proof.
  assert (Binding rest_v1 ≠ Binding rest_v2) as Hne by (simpl; discriminate).
  split; [exact Hne|].
  exact (Add_two_distinct_bindings rest_v1 rest_v2 Hne).
Defined.

Lemma reachable_registry_invariant_witness :
  after fresh_registry startup_calls = after NewWebHandlerFactoryRegistryImpl startup_calls
  ∧ NoDup (Binding <$> accepted fresh_registry startup_calls)
  ∧ (∀ b f, Get (after fresh_registry startup_calls) b = Some f
            ↔ f ∈ accepted fresh_registry startup_calls ∧ Binding f = b)
  ∧ (∀ b f more, Get (after fresh_registry startup_calls) b = Some f →
                 Get (after (after fresh_registry startup_calls) more) b = Some f).
Proof.
  split; [reflexivity|].
  destruct (reachable_registry_invariant startup_calls
              (after fresh_registry startup_calls) eq_refl) as (Hnd & _ & Hget & Hkeep).
  split_and!; [exact Hnd|exact Hget|exact Hkeep].
Defined.

Lemma Add_duplicate_message_witness :
  registered registry_with_rest_v1 (Binding rest_v1') = true
  ∧ snd (Add registry_with_rest_v1 (Some rest_v1'))
    = Returns (Some "binding [rest-v1] already registered").
Proof.
  assert (registered registry_with_rest_v1 (Binding rest_v1') = true) as Hreg
    by reflexivity.
  split; [exact Hreg|].
  exact (proj2 (Add_duplicate_message registry_with_rest_v1 rest_v1' Hreg) eq_refl).
Defined.

Lemma Add_empty_binding_witness :
  (factories fresh_registry = Some ∅
   ∧ registered fresh_registry EmptyString = false
   ∧ Binding unnamed = EmptyString
   ∧ Binding unnamed' = EmptyString)
  ∧ ∃ r1,
      Add fresh_registry (Some unnamed) = (r1, Returns None)
      ∧ factories r1 = Some (<[EmptyString := unnamed]> ∅)
      ∧ Get r1 EmptyString = Some unnamed
      ∧ Add r1 (Some unnamed') = (r1, Returns (Some "binding [] already registered"))
      ∧ Get (fst (Add r1 (Some unnamed'))) EmptyString = Some unnamed.
Proof.
  split; [split_and!; reflexivity|].
  exact (Add_empty_binding fresh_registry ∅ unnamed unnamed'
           eq_refl eq_refl eq_refl eq_refl).
Defined.

(** ** Further properties of [Add] and [Get] *)

Section Observations.
Context {T : Type} `{!WebHandlerFactory T}.
Implicit Types (registry r : WebHandlerFactoryRegistryImpl T).
Implicit Types (m : gmap string T) (F G f g : T) (b : string).

Lemma registered_of_Get r r' b :
  Get r' b = Get r b → registered r' b = registered r b.
Proof.
  intros Heq. destruct (registered r b) eqn:Hr.
  - apply registered_true. rewrite Heq. by apply registered_true.
  - apply registered_false. rewrite Heq. by apply registered_false.
Qed.

Lemma after_app r calls calls' :
  after r (calls ++ calls') = after (after r calls) calls'.
Proof.
  revert r. induction calls as [|c calls IH]; intros r; [done|apply IH].
Qed.

(** An [Add] that does not return nil hands back the registry it was
    given. *)
Lemma Add_not_nil_same r factory :
  snd (Add r factory) ≠ Returns None → fst (Add r factory) = r.
Proof.
  destruct factory as [f|]; [|done].
  destruct (Add_cases r f) as [[_ E]|[(m & g & _ & _ & E)|(m & _ & _ & E)]];
    rewrite E; simpl; done.
Qed.

(** X1. [Add] of a factory touches no binding but the factory's own: for
    every other binding, [Get] and the presence test give the same answer
    before and after the call, whatever the call's outcome. *)
Theorem Add_leaves_other_bindings r F b :
  Binding F ≠ b →
  Get (fst (Add r (Some F))) b = Get r b
  ∧ registered (fst (Add r (Some F))) b = registered r b.
Proof.
  intros Hne.
  assert (Get (fst (Add r (Some F))) b = Get r b) as Hget.
  { apply Add_other_Get. by intros ? [= <-]. }
  split; [done|]. by apply registered_of_Get.
Qed.

(** X2. Whenever [Add] does not return nil, be it an error or a panic, the
    registry is exactly what it was before the call. *)
Theorem Add_unsuccessful_changes_nothing r factory :
  snd (Add r factory) ≠ Returns None →
  fst (Add r factory) = r.
Proof.
  intros Hresult. destruct factory as [f|].
  - destruct (Add_cases r f) as [[_ E]|[(m & g & _ & _ & E)|(m & _ & _ & E)]];
      rewrite E in Hresult |- *; simpl in *; [done..|].
    by destruct Hresult.
  - by rewrite Add_nil_factory.
Qed.

(** X4. A registry whose table is nil can never be populated: after any
    sequence of calls it is the same registry, no [Add] was accepted, and
    [Get] returns nil for every binding. *)
Theorem nil_map_registry_stays_empty r calls :
  factories r = None →
  after r calls = r
  ∧ accepted r calls = []
  ∧ ∀ b, Get (after r calls) b = None.
Proof.
  intros Hnil.
  assert (∀ c, invoke r c = (r, snd (invoke r c)) ∧
               ∀ f, snd (invoke r c) ≠ AddReply (Returns None)) as Hstep.
  { intros [[f|]|b].
    - rewrite invoke_Add, (Add_nil_map r f Hnil). by split.
    - rewrite invoke_Add, Add_nil_factory. by split.
    - by split. }
  assert (after r calls = r ∧ accepted r calls = []) as [Hafter Hacc].
  { induction calls as [|c calls [IH1 IH2]]; [done|].
    destruct (Hstep c) as [Hc Hno]. split.
    - change (after r (c :: calls)) with (after (fst (invoke r c)) calls).
      by rewrite Hc.
    - cbn [accepted]. rewrite Hc.
      destruct c as [[f|]|b], (snd (invoke r _)) as [[[e|]|p]|o] eqn:Hr;
        try done.
      by destruct (Hno f). }
  split_and!; [done..|]. intros b. rewrite Hafter. by apply Get_nil_map.
Qed.

(** X6. Offering the same factory twice in a row: the second [Add] never
    returns nil and leaves the registry as the first call left it. *)
Theorem Add_twice r factory :
  fst (Add (fst (Add r factory)) factory) = fst (Add r factory)
  ∧ snd (Add (fst (Add r factory)) factory) ≠ Returns None.
Proof.
  assert (snd (Add (fst (Add r factory)) factory) ≠ Returns None) as Hsnd.
  { destruct factory as [f|]; [|done].
    destruct (Add_cases r f) as [[Hnil E]|[(m & g & Hm & Hg & E)|(m & Hm & Hf & E)]];
      rewrite E; cbn [fst].
    - by rewrite E.
    - by rewrite E.
    - erewrite Add_registered; [done|reflexivity|apply lookup_insert_eq]. }
  split; [|done]. by apply Add_not_nil_same.
Qed.

(** X10. [Add] and [Get] agree on every registry: [Add] of a factory
    returns an error exactly when [Get] on the factory's binding returns a
    factory. *)
Theorem Add_error_iff_Get_finds r F :
  (∃ msg, snd (Add r (Some F)) = Returns (Some msg))
  ↔ is_Some (Get r (Binding F)).
Proof.
  destruct (Add_cases r F) as [[Hnil E]|[(m & g & Hm & Hg & E)|(m & Hm & Hf & E)]];
    rewrite E; simpl.
  - rewrite Get_nil_map by done. split; [by intros [? [=]]|by intros [? [=]]].
  - rewrite (Get_allocated r m) by done. rewrite Hg. split; eauto.
  - rewrite (Get_allocated r m) by done. rewrite Hf.
    split; [by intros [? [=]]|by intros [? [=]]].
Qed.

Lemma registry_eq r r' : factories r = factories r' → r = r'.
Proof. destruct r, r'; simpl. by intros ->. Qed.

(** The table [Add] leaves behind on an allocated registry. *)
Lemma Add_allocated_table r m f :
  factories r = Some m →
  factories (fst (Add r (Some f)))
  = Some (match m !! Binding f with Some _ => m | None => <[Binding f := f]> m end).
Proof.
  intros Hm. destruct (m !! Binding f) as [g|] eqn:Hg.
  - by rewrite (Add_registered r m f g).
  - by rewrite (Add_fresh r m f).
Qed.

Lemma Add_keeps_allocated r m factory :
  factories r = Some m → ∃ m', factories (fst (Add r factory)) = Some m'.
Proof.
  intros Hm. destruct factory as [f|]; [|by eauto].
  rewrite (Add_allocated_table r m f Hm). eauto.
Qed.

Lemma string_length_app (a s : string) :
  String.length (a +:+ s) = String.length a + String.length s.
Proof. induction a as [|c a IH]; simpl; [done|by rewrite IH]. Qed.

Lemma string_app_cancel_r (s a a' : string) : a +:+ s = a' +:+ s → a = a'.
Proof.
  revert a'. induction a as [|c a IH]; intros [|c' a'] Heq; simpl in *.
  - done.
  - apply (f_equal String.length) in Heq.
    rewrite ?string_length_app in Heq. simpl in Heq.
    rewrite ?string_length_app in Heq. lia.
  - apply (f_equal String.length) in Heq.
    rewrite ?string_length_app in Heq. simpl in Heq.
    rewrite ?string_length_app in Heq. lia.
  - injection Heq as -> Heq. f_equal. by apply IH.
Qed.

(** X5. Two factories with distinct bindings can be offered in either
    order: the registry ends up the same, and each call's outcome is what it
    would have been had the other not been made. *)
Theorem Add_commutes r F G :
  Binding F ≠ Binding G →
  fst (Add (fst (Add r (Some F))) (Some G)) = fst (Add (fst (Add r (Some G))) (Some F))
  ∧ snd (Add (fst (Add r (Some G))) (Some F)) = snd (Add r (Some F))
  ∧ snd (Add (fst (Add r (Some F))) (Some G)) = snd (Add r (Some G)).
Proof.
  intros Hne.
  assert (∀ f g, Binding f ≠ Binding g →
                 snd (Add (fst (Add r (Some g))) (Some f)) = snd (Add r (Some f)))
    as Hout.
  { intros f g Hfg.
    destruct (Add_cases r g) as [[_ E]|[(m & g' & _ & _ & E)|(m & Hm & Hg & E)]];
      rewrite E; cbn [fst]; [done..|].
    set (r1 := {| factories := Some (<[Binding g := g]> m) |}).
    destruct (m !! Binding f) as [f'|] eqn:Hf.
    - rewrite (Add_registered r m f f') by done.
      rewrite (Add_registered r1 (<[Binding g := g]> m) f f'); [done..|].
      by rewrite lookup_insert_ne.
    - rewrite (Add_fresh r m f) by done.
      rewrite (Add_fresh r1 (<[Binding g := g]> m) f); [done..|].
      by rewrite lookup_insert_ne. }
  split_and!; [|by apply Hout|by apply Hout].
  apply registry_eq.
  destruct (factories r) as [m|] eqn:Hm.
  - destruct (Add_keeps_allocated r m (Some F) Hm) as [mF HmF].
    destruct (Add_keeps_allocated r m (Some G) Hm) as [mG HmG].
    rewrite (Add_allocated_table _ mF G HmF), (Add_allocated_table _ mG F HmG).
    rewrite (Add_allocated_table r m F Hm) in HmF.
    rewrite (Add_allocated_table r m G Hm) in HmG.
    injection HmF as <-. injection HmG as <-.
    destruct (m !! Binding F) as [f'|] eqn:HF, (m !! Binding G) as [g'|] eqn:HG;
      rewrite ?lookup_insert_ne, ?HF, ?HG by done; try done.
    f_equal. by apply insert_insert_ne.
  - rewrite !(Add_nil_map r) by done. cbn [fst].
    by rewrite ?(Add_nil_map r) by done.
Qed.

(** X7. Every factory sits under its own binding, and no call breaks this:
    if [Get] on a registry only ever returns a factory whose [Binding()] is
    the binding asked for, the same holds after any sequence of calls. *)
Theorem stored_under_own_binding r calls :
  (∀ b f, Get r b = Some f → Binding f = b) →
  ∀ b f, Get (after r calls) b = Some f → Binding f = b.
Proof.
  revert r. induction calls as [|c calls IH]; intros r Hr; [done|].
  apply IH. destruct c as [[g|]|b']; [|done..].
  rewrite invoke_Add. cbn [fst]. intros b f.
  destruct (Add_cases r g) as [[_ E]|[(m & g' & _ & _ & E)|(m & Hm & Hg & E)]];
    rewrite E; cbn [fst]; [by apply Hr..|].
  erewrite Get_allocated by reflexivity.
  intros [[<- <-]|[_ Hl]]%lookup_insert_Some; [done|].
  apply Hr. by rewrite (Get_allocated r m).
Qed.

(** X8. The table grows by exactly one entry per accepted [Add] and by
    nothing else: after any sequence of calls on an allocated registry, its
    size is the size before plus the number of calls of [Add] that returned
    nil. *)
Theorem table_size_counts_accepted r m calls :
  factories r = Some m →
  ∃ m', factories (after r calls) = Some m'
        ∧ size m' = size m + length (accepted r calls).
Proof.
  revert r m. induction calls as [|c calls IH]; intros r m Hm.
  { exists m. split; [done|]. simpl. lia. }
  change (after r (c :: calls)) with (after (fst (invoke r c)) calls).
  destruct c as [[g|]|b'].
  - rewrite accepted_Add, invoke_Add. cbn [fst].
    destruct (Add_cases r g) as [[? _]|[(m1 & g' & Hm1 & _ & E)|(m1 & Hm1 & Hg & E)]];
      [congruence|..]; rewrite E; cbn [fst snd].
    + by apply IH.
    + assert (m1 = m) as -> by congruence.
      destruct (IH {| factories := Some (<[Binding g := g]> m) |}
                  (<[Binding g := g]> m) eq_refl) as (m' & Hafter & Hsize).
      exists m'. split; [done|].
      rewrite Hsize, map_size_insert_None by done. simpl. lia.
  - rewrite accepted_Add, invoke_Add, Add_nil_factory. cbn [fst snd]. by apply IH.
  - by apply IH.
Qed.

(** X9. First registration wins along any sequence of calls: on an
    allocated registry in which a binding is free, [Get] on that binding
    returns a factory after the calls exactly when that factory is the
    first one offered to [Add] under the binding. *)
Theorem Get_returns_first_offered r m calls b f :
  factories r = Some m →
  registered r b = false →
  Get (after r calls) b = Some f
  ↔ ∃ pre post : list (call T),
      calls = (pre ++ CallAdd (Some f) :: post)%list
      ∧ Binding f = b ∧ b ∉ offered pre.
Proof.
  intros Hm Hfree. split.
  - revert r m Hm Hfree. induction calls as [|c calls IH]; intros r m Hm Hfree Hget.
    { apply registered_false in Hfree. simpl in Hget. congruence. }
    change (after r (c :: calls)) with (after (fst (invoke r c)) calls) in Hget.
    destruct c as [[g|]|b'].
    + rewrite invoke_Add in Hget. cbn [fst] in Hget.
      destruct (decide (Binding g = b)) as [Hgb|Hgb].
      * apply registered_false in Hfree.
        rewrite (Get_allocated r m) in Hfree by done.
        rewrite (Add_fresh r m g) in Hget by (by rewrite ?Hgb). cbn [fst] in Hget.
        rewrite (after_keeps_Get calls _ b g) in Hget.
        -- injection Hget as <-. exists [], calls.
           split_and!; [done..|]. by intros ?%elem_of_nil.
        -- erewrite Get_allocated by reflexivity. rewrite <- Hgb.
           apply lookup_insert_eq.
      * destruct (Add_keeps_allocated r m (Some g) Hm) as [m1 Hm1].
        destruct (IH _ m1 Hm1) as (pre & post & -> & Hb & Hpre); [|done|].
        { rewrite <- Hfree. apply registered_of_Get, Add_other_Get.
          by intros ? [= <-]. }
        exists (CallAdd (Some g) :: pre), post. split_and!; [done..|].
        simpl. by apply not_elem_of_cons.
    + rewrite invoke_Add, Add_nil_factory in Hget. cbn [fst] in Hget.
      destruct (IH r m Hm Hfree Hget) as (pre & post & -> & Hb & Hpre).
      by exists (CallAdd None :: pre), post.
    + destruct (IH r m Hm Hfree Hget) as (pre & post & -> & Hb & Hpre).
      by exists (CallGet b' :: pre), post.
  - intros (pre & post & -> & Hb & Hpre).
    rewrite after_app.
    change (after (after r pre) (CallAdd (Some f) :: post))
      with (after (fst (invoke (after r pre) (CallAdd (Some f)))) post).
    apply after_keeps_Get. rewrite invoke_Add. cbn [fst].
    assert (r = {| factories := Some m |}) as -> by by apply registry_eq.
    destruct (after_allocated pre m) as (m1 & Hm1 & _).
    assert (m1 !! Binding f = None) as Hf.
    { rewrite <- (Get_allocated _ m1 _ Hm1), Hb, after_unoffered_Get by done.
      by apply registered_false. }
    rewrite (Add_fresh _ m1 f Hm1 Hf). cbn [fst].
    erewrite Get_allocated by reflexivity. rewrite <- Hb. apply lookup_insert_eq.
Qed.

(** X11. The duplicate error names its binding: two calls of [Add] that
    return the same error message were made with factories of the same
    binding. *)
Theorem Add_error_identifies_binding r r' F G msg :
  snd (Add r (Some F)) = Returns (Some msg) →
  snd (Add r' (Some G)) = Returns (Some msg) →
  Binding F = Binding G.
Proof.
  assert (∀ r0 f, snd (Add r0 (Some f)) = Returns (Some msg) →
            msg = "binding [" +:+ Binding f +:+ "] already registered") as Hmsg.
  { intros r0 f.
    destruct (Add_cases r0 f) as [[_ E]|[(m & g & _ & _ & E)|(m & _ & _ & E)]];
      rewrite E; simpl; congruence. }
  intros HF%Hmsg HG%Hmsg. rewrite HF in HG.
  apply (inj (String.app "binding [")) in HG.
  by apply string_app_cancel_r in HG.
Qed.

End Observations.

(** ** The further properties on [NamedFactory] registries *)

Lemma Add_leaves_other_bindings_witness :
  Binding rest_v2 ≠ "rest-v1"
  ∧ Get (fst (Add registry_with_rest_v1 (Some rest_v2))) "rest-v1"
    = Get registry_with_rest_v1 "rest-v1"
  ∧ registered (fst (Add registry_with_rest_v1 (Some rest_v2))) "rest-v1"
    = registered registry_with_rest_v1 "rest-v1".
Proof.
  assert (Binding rest_v2 ≠ "rest-v1") as Hne by (simpl; discriminate).
  split; [exact Hne|].
  exact (Add_leaves_other_bindings registry_with_rest_v1 rest_v2 "rest-v1" Hne).
Defined.

Lemma Add_unsuccessful_changes_nothing_witness :
  snd (Add registry_with_rest_v1 (Some rest_v1')) ≠ Returns None
  ∧ fst (Add registry_with_rest_v1 (Some rest_v1')) = registry_with_rest_v1.
Proof.
  assert (snd (Add registry_with_rest_v1 (Some rest_v1')) ≠ Returns None) as Hne
    by (vm_compute; discriminate).
  split; [exact Hne|].
  exact (Add_unsuccessful_changes_nothing registry_with_rest_v1 (Some rest_v1') Hne).
Defined.

Lemma nil_map_registry_stays_empty_witness :
  factories (@zero_registry NamedFactory) = None
  ∧ after zero_registry startup_calls = zero_registry
  ∧ accepted zero_registry startup_calls = []
  ∧ ∀ b, Get (after zero_registry startup_calls) b = None.
Proof.
  split; [reflexivity|].
  exact (nil_map_registry_stays_empty zero_registry startup_calls eq_refl).
Defined.

Lemma Add_commutes_witness :
  Binding rest_v1 ≠ Binding rest_v2
  ∧ fst (Add (fst (Add fresh_registry (Some rest_v1))) (Some rest_v2))
    = fst (Add (fst (Add fresh_registry (Some rest_v2))) (Some rest_v1))
  ∧ snd (Add (fst (Add fresh_registry (Some rest_v2))) (Some rest_v1))
    = snd (Add fresh_registry (Some rest_v1))
  ∧ snd (Add (fst (Add fresh_registry (Some rest_v1))) (Some rest_v2))
    = snd (Add fresh_registry (Some rest_v2)).
Proof.
  assert (Binding rest_v1 ≠ Binding rest_v2) as Hne by (simpl; discriminate).
  split; [exact Hne|].
  exact (Add_commutes fresh_registry rest_v1 rest_v2 Hne).
Defined.

Lemma stored_under_own_binding_witness :
  (∀ b f, Get fresh_registry b = Some f → Binding f = b)
  ∧ ∀ b f, Get (after fresh_registry startup_calls) b = Some f → Binding f = b.
Proof.
  assert (∀ b f, Get fresh_registry b = Some f → Binding f = b) as Hfresh.
  { intros b f. rewrite (Get_allocated fresh_registry ∅ b eq_refl), lookup_empty.
    discriminate. }
  split; [exact Hfresh|].
  exact (stored_under_own_binding fresh_registry startup_calls Hfresh).
Defined.

Lemma table_size_counts_accepted_witness :
  factories fresh_registry = Some ∅
  ∧ ∃ m', factories (after fresh_registry startup_calls) = Some m'
          ∧ size m' = size (∅ : gmap string NamedFactory)
                      + length (accepted fresh_registry startup_calls).
Proof.
  split; [reflexivity|].
  exact (table_size_counts_accepted fresh_registry ∅ startup_calls eq_refl).
Defined.

Lemma Get_returns_first_offered_witness :
  (factories fresh_registry = Some ∅
   ∧ registered fresh_registry "rest-v1" = false)
  ∧ (Get (after fresh_registry startup_calls) "rest-v1" = Some rest_v1
     ↔ ∃ pre post : list (call NamedFactory),
         startup_calls = (pre ++ CallAdd (Some rest_v1) :: post)%list
         ∧ Binding rest_v1 = "rest-v1" ∧ "rest-v1" ∉ offered pre).
Proof.
  split; [split; reflexivity|].
  exact (Get_returns_first_offered fresh_registry ∅ startup_calls "rest-v1" rest_v1
           eq_refl eq_refl).
Defined.

Lemma Add_error_identifies_binding_witness :
  (snd (Add registry_with_rest_v1 (Some rest_v1))
   = Returns (Some "binding [rest-v1] already registered")
   ∧ snd (Add registry_with_rest_v1 (Some rest_v1'))
     = Returns (Some "binding [rest-v1] already registered"))
  ∧ Binding rest_v1 = Binding rest_v1'.
Proof.
  split; [split; reflexivity|].
  exact (Add_error_identifies_binding registry_with_rest_v1 registry_with_rest_v1
           rest_v1 rest_v1' "binding [rest-v1] already registered" eq_refl eq_refl).
Defined.
